(** * Thumbnail generator: a shallow embedding of [lambda_handler]

    The program under study is the AWS Lambda function of
    [src/lambda/thumbnail_generator.py]: on an S3 notification it fetches
    the object named by the first record, shrinks the image with Pillow's
    [Image.thumbnail((500,500))], encodes it as JPEG and stores it in the
    bucket named by the environment variable [DEST_BUCKET] under the key
    [{name}_thumbnail{ext}].

    Conventions of the embedding:
    - Python [str] values are Rocq [string]s (byte strings holding the
      UTF-8 encoding; the characters the code looks for, the dot and the
      slash, are ASCII and never occur inside a multi-byte sequence);
    - Python integers are [Z]; indices returned by [str.rfind] keep their
      [-1] for "not found";
    - the event is a JSON document ([value]); a JSON object is an
      association list searched front to back;
    - exceptions are the constructors of [exn]; the handler runs in a small
      state-and-error monad over the observable world (the bucket contents
      and the sequence of log lines and storage calls);
    - the storage service and the Pillow codecs are collaborators of the
      program, not part of it: they are parameters of the handler. *)

From Stdlib Require Import ZArith QArith Qround Qabs Bool Ascii String List Lia.
From stdpp Require Import base option strings gmap.

Set Warnings "-register-all".

Local Open Scope string_scope.
Local Open Scope Z_scope.

(** ** Python strings *)

Module PyStr.

(** [len(s)] *)
Definition len (s : string) : Z := Z.of_nat (String.length s).

(** [s.rfind(c)] for a one-character needle: the highest index at which
    [c] occurs, [-1] when it does not occur. *)
Fixpoint rfind (s : string) (c : ascii) : Z :=
  match s with
  | EmptyString => -1
  | String a t =>
      let r := rfind t c in
      if 0 <=? r then r + 1
      else if Ascii.eqb a c then 0 else -1
  end.

Fixpoint take (n : nat) (s : string) : string :=
  match n, s with
  | S n', String a t => String a (take n' t)
  | _, _ => EmptyString
  end.

Fixpoint drop (n : nat) (s : string) : string :=
  match n, s with
  | S n', String _ t => drop n' t
  | _, _ => s
  end.

(** [s[:i]] and [s[i:]] for an index [0 <= i]; the handler never slices
    with a negative index. *)
Definition slice_to (s : string) (i : Z) : string := take (Z.to_nat i) s.
Definition slice_from (s : string) (i : Z) : string := drop (Z.to_nat i) s.

(** [s[i:i+1]] for [0 <= i]: the one-character string at [i], or the empty
    string past the end. *)
Definition slice1 (s : string) (i : Z) : string :=
  match String.get (Z.to_nat i) s with
  | Some a => String a EmptyString
  | None => EmptyString
  end.

End PyStr.

(** ** [os.path.splitext] (posixpath, on [genericpath._splitext]) *)

Module OsPath.
Import PyStr.

Definition sep : ascii := "/"%char.
Definition extsep : ascii := "."%char.

(** The [while filenameIndex < dotIndex] loop of [_splitext]: [n] counts
    the iterations the guard still allows, [dotIndex - filenameIndex]. *)
Fixpoint _splitext_loop (n : nat) (p : string) (extsep : ascii)
         (filenameIndex dotIndex : Z) : string * string :=
  match n with
  | O => (p, slice_to p 0)
  | S n' =>
      if negb (String.eqb (slice1 p filenameIndex) (String extsep EmptyString))
      then (slice_to p dotIndex, slice_from p dotIndex)
      else _splitext_loop n' p extsep (filenameIndex + 1) dotIndex
  end.

(** [genericpath._splitext(p, sep, altsep, extsep)]. *)
Definition _splitext (p : string) (sep : ascii) (altsep : option ascii)
           (extsep : ascii) : string * string :=
  let sepIndex := rfind p sep in
  let sepIndex :=
    match altsep with
    | Some a => Z.max sepIndex (rfind p a)
    | None => sepIndex
    end in
  let dotIndex := rfind p extsep in
  if sepIndex <? dotIndex then
    (* skip all leading dots *)
    let filenameIndex := sepIndex + 1 in
    _splitext_loop (Z.to_nat (dotIndex - filenameIndex)) p extsep
                   filenameIndex dotIndex
  else (p, slice_to p 0).

(** [posixpath.splitext(p)] on a [str]. *)
Definition splitext (p : string) : string * string :=
  _splitext p sep None extsep.

End OsPath.

(** ** Key derivation (lines 22-23 of the handler) *)

(** [f"{thumbnail_name}_thumbnail{thumbnail_ext}"] *)
Definition thumbnail_key (key : string) : string :=
  let '(thumbnail_name, thumbnail_ext) := OsPath.splitext key in
  thumbnail_name +:+ "_thumbnail" +:+ thumbnail_ext.

(** The split the specification words describe: cut the key at its last
    extension separator, wherever that dot stands; no dot, no extension.
    It is compared with [OsPath.splitext] below and is not used by the
    handler. *)
Definition split_at_last_extsep (key : string) : string * string :=
  let dotIndex := PyStr.rfind key OsPath.extsep in
  if dotIndex <? 0 then (key, EmptyString)
  else (PyStr.slice_to key dotIndex, PyStr.slice_from key dotIndex).

(** Some character of [p] at an index in [[i, i + n)] is not a dot. *)
Fixpoint has_non_dot (n : nat) (p : string) (i : Z) : bool :=
  match n with
  | O => false
  | S n' =>
      negb (String.eqb (PyStr.slice1 p i) (String OsPath.extsep EmptyString))
      || has_non_dot n' p (i + 1)
  end.

(** ** JSON values and Python subscripting *)

Inductive value : Type :=
| VNull
| VBool (b : bool)
| VInt (n : Z)
| VFloat (mantissa exponent : Z)
| VStr (s : string)
| VList (items : list value)
| VDict (fields : list (string * value)).

Inductive pykey : Type :=
| KStr (s : string)
| KInt (n : Z).

(** A message built by [str.format] or an f-string: the template and the
    values substituted for its fields, in order. *)
Inductive message : Type :=
| Format (template : string) (args : list value).

Inductive exn : Type :=
| KeyError (key : pykey)
| IndexError
| TypeError
| ZeroDivisionError
| ParamValidationError
| ClientError (code : string)
| PillowError (reason : string)
| Exception (msg : message).

Inductive result (A : Type) : Type :=
| Ok (a : A)
| Raise (e : exn).
Arguments Ok {A} a.
Arguments Raise {A} e.

Fixpoint dict_get (fields : list (string * value)) (k : string) : option value :=
  match fields with
  | [] => None
  | (k', v) :: rest => if String.eqb k' k then Some v else dict_get rest k
  end.

(** [v[k]] for a string [k]. *)
Definition getitem_str (v : value) (k : string) : result value :=
  match v with
  | VDict fields =>
      match dict_get fields k with
      | Some x => Ok x
      | None => Raise (KeyError (KStr k))
      end
  | _ => Raise TypeError
  end.

(** [v[i]] for an integer [i]: a list or a string is indexed (a negative
    index counts from the end), a JSON object has string keys only, any
    other value is not subscriptable. The one-character result of indexing
    a string is exact for ASCII text. *)
Definition getitem_int (v : value) (i : Z) : result value :=
  match v with
  | VList items =>
      let n := Z.of_nat (length items) in
      let j := if i <? 0 then i + n else i in
      if (j <? 0) || (n <=? j) then Raise IndexError
      else match nth_error items (Z.to_nat j) with
           | Some x => Ok x
           | None => Raise IndexError
           end
  | VStr s =>
      let n := PyStr.len s in
      let j := if i <? 0 then i + n else i in
      if (j <? 0) || (n <=? j) then Raise IndexError
      else Ok (VStr (PyStr.slice1 s j))
  | VDict _ => Raise (KeyError (KInt i))
  | _ => Raise TypeError
  end.

Definition getitem (v : value) (k : pykey) : result value :=
  match k with
  | KStr s => getitem_str v s
  | KInt i => getitem_int v i
  end.

(** A chain of subscripts [v[k1][k2]...], evaluated left to right. *)
Fixpoint subscript (v : value) (path : list pykey) : result value :=
  match path with
  | [] => Ok v
  | k :: rest =>
      match getitem v k with
      | Ok x => subscript x rest
      | Raise e => Raise e
      end
  end.

(** [os.fspath(p)] on a JSON value: only a [str] is path-like. *)
Definition fspath (p : value) : result string :=
  match p with
  | VStr s => Ok s
  | _ => Raise TypeError
  end.

(** [str.format] with automatically numbered [{}] fields, for arguments
    that are strings ([str(s)] is [s]). *)
Fixpoint str_format (template : string) (args : list string) : string :=
  match template with
  | String "{" (String "}" rest) =>
      match args with
      | a :: args' => a +:+ str_format rest args'
      | [] => str_format rest []
      end
  | String c rest => String c (str_format rest args)
  | EmptyString => EmptyString
  end.

Definition str_of_value (v : value) : option string :=
  match v with
  | VStr s => Some s
  | _ => None
  end.

(** The text of a message all of whose arguments are strings. *)
Definition render (m : message) : option string :=
  match m with
  | Format template args =>
      strs ← mapM str_of_value args; Some (str_format template strs)
  end.

(** ** Errors as values: the [result] monad *)

#[export] Instance result_ret : MRet result := fun A a => Ok a.
#[export] Instance result_bind : MBind result := fun A B f r =>
  match r with
  | Ok a => f a
  | Raise e => Raise e
  end.

(** ** [os.environ] *)

(** [os.environ[name]] *)
Definition environ_getitem (environ : gmap string string) (name : string)
  : result string :=
  match environ !! name with
  | Some v => Ok v
  | None => Raise (KeyError (KStr name))
  end.

(** ** Pillow: images and [Image.thumbnail] *)

Definition bytes : Type := list Byte.byte.

Record image : Type := mkImage {
  im_format : string;     (* format of the file the image was read from *)
  im_mode : string;
  im_size : Z * Z;        (* (width, height) *)
  im_pixels : bytes
}.

(** The codecs and the resampling filter of Pillow. [Image_open] is
    [Image.open(BytesIO(b))]; [Image_load] is the decoding of the pixel
    data, which [open] defers until the image is first used;
    [Image_resize] is the raster resampled to a size; [Image_save] is
    [img.save(buffer, fmt)] followed by the content of the buffer. *)
Record Pillow : Type := mkPillow {
  Image_open : bytes -> result image;
  Image_load : image -> result unit;
  Image_resize : image -> Z * Z -> bytes;
  Image_save : image -> string -> result bytes
}.

(** [a / b] on integers (true division). Python computes it in binary
    floating point; the embedding keeps the exact quotient. *)
Definition true_div (a b : Z) : result Q :=
  if b =? 0 then Raise ZeroDivisionError else Ok (inject_Z a / inject_Z b)%Q.

(** [min(a, b, key=key)]: the first of the two whose key is minimal. *)
Definition min_by_key (key : Z -> Q) (a b : Z) : Z :=
  if Qle_bool (key a) (key b) then a else b.

(** [round_aspect(number, key)] of [Image.thumbnail]:
    [max(min(math.floor(number), math.ceil(number), key=key), 1)]. *)
Definition round_aspect (number : Q) (key : Z -> Q) : Z :=
  Z.max (min_by_key key (Qfloor number) (Qceiling number)) 1.

(** [preserve_aspect_ratio()] of [Image.thumbnail], for an image of the
    given width and height; [None] is its bare [return]. *)
Definition preserve_aspect_ratio (provided_size : Z * Z) (width height : Z)
  : result (option (Z * Z)) :=
  let '(x, y) := provided_size in
  if (width <=? x) && (height <=? y) then Ok None
  else
    aspect ← true_div width height;
    box_aspect ← true_div x y;
    if Qle_bool aspect box_aspect then
      let x' := round_aspect (inject_Z y * aspect)%Q
                  (fun n => Qabs (aspect - inject_Z n / inject_Z y))%Q in
      Ok (Some (x', y))
    else if Qeq_bool aspect 0 then Raise ZeroDivisionError
    else
      let y' := round_aspect (inject_Z x / aspect)%Q
                  (fun n => if n =? 0 then 0
                            else Qabs (aspect - inject_Z x / inject_Z n))%Q in
      Ok (Some (x, y')).

Definition size_eqb (a b : Z * Z) : bool :=
  (fst a =? fst b) && (snd a =? snd b).

(** [img.thumbnail(size)]: the image is changed in place, so the result is
    the image the name [img] denotes afterwards. The JPEG decoder's draft
    mode only changes how the raster is read; the size the image ends with
    is the one [preserve_aspect_ratio] returns. *)
Definition thumbnail (pil : Pillow) (img : image) (size : Z * Z) : result image :=
  final ← preserve_aspect_ratio size (fst (im_size img)) (snd (im_size img));
  match final with
  | None => Ok img
  | Some final_size =>
      _ ← Image_load pil img;
      if negb (size_eqb (im_size img) final_size) then
        Ok {| im_format := im_format img;
              im_mode := im_mode img;
              im_size := final_size;
              im_pixels := Image_resize pil img final_size |}
      else Ok img
  end.

(** ** The storage service and the observable world *)

Inductive put_reply : Type :=
| PutRaises (e : exn)
| PutResponds (HTTPStatusCode : Z).

(** What the service (and the client library in front of it) answers:
    [get_fault] is the error of a read that fails for a reason other than
    a missing object (access denied, network, parameter validation);
    [put_reply_of] is the answer to a write. Neither depends on what the
    bucket holds: a write is unconditional. *)
Record S3Service : Type := mkS3Service {
  get_fault : string -> string -> option exn;
  put_reply_of : string -> string -> bytes -> put_reply
}.

Inductive effect : Type :=
| LogInfo (line : message)
| GetObject (Bucket : value) (Key : string)
| PutObject (Bucket Key : string) (Body : bytes).

Record world : Type := mkWorld {
  objects : gmap (string * string) bytes;
  history : list effect
}.

Definition M (A : Type) : Type := world -> result A * world.

#[export] Instance M_ret : MRet M := fun A a w => (Ok a, w).
#[export] Instance M_bind : MBind M := fun A B f m w =>
  match m w with
  | (Ok a, w') => f a w'
  | (Raise e, w') => (Raise e, w')
  end.

Definition lift {A : Type} (r : result A) : M A := fun w => (r, w).

Definition raise {A : Type} (e : exn) : M A := fun w => (Raise e, w).

Definition emit (e : effect) : M unit := fun w =>
  (Ok tt, {| objects := objects w; history := history w ++ [e] |}).

(** [logger.info(line)] *)
Definition logger_info (line : message) : M unit := emit (LogInfo line).

(** [s3_client.get_object(Bucket=..., Key=...)['Body'].read()] *)
Definition get_object (s3_client : S3Service) (Bucket : value) (Key : string)
  : M bytes :=
  _ ← emit (GetObject Bucket Key);
  match Bucket with
  | VStr b =>
      match get_fault s3_client b Key with
      | Some e => raise e
      | None => fun w =>
          match objects w !! (b, Key) with
          | Some body => (Ok body, w)
          | None => (Raise (ClientError "NoSuchKey"), w)
          end
      end
  | _ => raise ParamValidationError
  end.

(** [s3_client.put_object(Bucket=..., Key=..., Body=...)], returning
    [sent_data['ResponseMetadata']['HTTPStatusCode']]. The object is
    stored, replacing whatever the key held, exactly when the service
    reports success. *)
Definition put_object (s3_client : S3Service) (Bucket Key : string) (Body : bytes)
  : M Z :=
  _ ← emit (PutObject Bucket Key Body);
  match put_reply_of s3_client Bucket Key Body with
  | PutRaises e => raise e
  | PutResponds status => fun w =>
      (Ok status,
       if status =? 200
       then {| objects := <[(Bucket, Key) := Body]> (objects w);
               history := history w |}
       else w)
  end.

(** ** The handler *)

Definition size_value (s : Z * Z) : value := VList [VInt (fst s); VInt (snd s)].

Definition bucket_path : list pykey :=
  [KStr "Records"; KInt 0; KStr "s3"; KStr "bucket"; KStr "name"].

Definition key_path : list pykey :=
  [KStr "Records"; KInt 0; KStr "s3"; KStr "object"; KStr "key"].

Definition lambda_handler (pil : Pillow) (s3_client : S3Service)
           (environ : gmap string string) (event context : value) : M value :=
  _ ← logger_info (Format "event: {}" [event]);
  _ ← logger_info (Format "context: {}" [context]);
  (* Get the S3 bucket and object key from the event *)
  bucket ← lift (subscript event bucket_path);
  key ← lift (subscript event key_path);
  (* Define the destination bucket and thumbnail key *)
  thumbnail_bucket ← lift (environ_getitem environ "DEST_BUCKET");
  key_str ← lift (fspath key);
  let thumbnail_key := thumbnail_key key_str in
  _ ← logger_info
        (Format "Bucket name: {}, file name: {}, Thumbnail Bucket name: {}, file name: {}"
                [bucket; key; VStr thumbnail_bucket; VStr thumbnail_key]);
  (* Open the image using Pillow *)
  file_byte_string ← get_object s3_client bucket key_str;
  img ← lift (Image_open pil file_byte_string);
  _ ← logger_info (Format "Size before compression: {}" [size_value (im_size img)]);
  (* Create a thumbnail *)
  img ← lift (thumbnail pil img (500, 500));
  _ ← logger_info (Format "Size after compression: {}" [size_value (im_size img)]);
  (* Save the thumbnail to a BytesIO object *)
  buffer ← lift (Image_save pil img "JPEG");
  (* Upload the thumbnail to the destination bucket *)
  HTTPStatusCode ← put_object s3_client thumbnail_bucket thumbnail_key buffer;
  if negb (HTTPStatusCode =? 200) then
    raise (Exception (Format "Failed to upload image {} to bucket {}" [key; bucket]))
  else mret event.

(** ** Observations on a run *)

(** The effects an invocation added to the history of the world it started
    in. *)
Definition effects_since (w w' : world) : list effect :=
  drop (length (history w)) (history w').

Definition is_put (e : effect) : bool :=
  match e with
  | PutObject _ _ _ => true
  | _ => false
  end.

Definition is_storage_call (e : effect) : bool :=
  match e with
  | GetObject _ _ | PutObject _ _ _ => true
  | LogInfo _ => false
  end.

(** The calls made on the storage client, in order. *)
Definition storage_calls (es : list effect) : list effect :=
  List.filter is_storage_call es.

Definition put_calls (es : list effect) : list effect :=
  List.filter is_put es.

(** The error of line 45 for a source key and a source bucket. *)
Definition upload_failed (key bucket : string) : exn :=
  Exception (Format "Failed to upload image {} to bucket {}"
                    [VStr key; VStr bucket]).

(** The world after the two log lines every invocation starts with. *)
Definition echoed (event ctx : value) (w : world) : world :=
  {| objects := objects w;
     history := history w ++ [LogInfo (Format "event: {}" [event]);
                              LogInfo (Format "context: {}" [ctx])] |}.

(** Lines 29-38: from the fetched bytes to the bytes to upload. *)
Definition process (pil : Pillow) (file_byte_string : bytes) : result bytes :=
  img ← Image_open pil file_byte_string;
  img ← thumbnail pil img (500, 500);
  Image_save pil img "JPEG".




(** ** Sample inputs

    A small container format stands in for the real codecs in the worked
    examples: one byte for the format, two bytes for each side, then the
    raster. *)

Module Sample.

Definition byte_of_Z (z : Z) : Byte.byte :=
  match Byte.of_N (Z.to_N (z mod 256)) with
  | Some b => b
  | None => Byte.x00
  end.

Definition Z_of_byte (b : Byte.byte) : Z := Z.of_N (Byte.to_N b).

Definition format_of_tag (tag : Byte.byte) : option string :=
  match tag with
  | Byte.xff => Some "JPEG"
  | Byte.x89 => Some "PNG"
  | _ => None
  end.

Definition tag_of_format (fmt : string) : option Byte.byte :=
  if String.eqb fmt "JPEG" then Some Byte.xff
  else if String.eqb fmt "PNG" then Some Byte.x89
  else None.

Definition encode (tag : Byte.byte) (size : Z * Z) (raster : bytes) : bytes :=
  tag :: byte_of_Z (fst size / 256) :: byte_of_Z (fst size)
      :: byte_of_Z (snd size / 256) :: byte_of_Z (snd size) :: raster.

Definition open (b : bytes) : result image :=
  match b with
  | tag :: w1 :: w0 :: h1 :: h0 :: raster =>
      match format_of_tag tag with
      | Some fmt =>
          Ok {| im_format := fmt;
                im_mode := "RGB";
                im_size := (256 * Z_of_byte w1 + Z_of_byte w0,
                            256 * Z_of_byte h1 + Z_of_byte h0);
                im_pixels := raster |}
      | None => Raise (PillowError "cannot identify image file")
      end
  | _ => Raise (PillowError "cannot identify image file")
  end.

Definition save (img : image) (fmt : string) : result bytes :=
  match tag_of_format fmt with
  | Some tag => Ok (encode tag (im_size img) (im_pixels img))
  | None => Raise (PillowError "unknown file extension")
  end.

Definition pil : Pillow :=
  {| Image_open := open;
     Image_load := fun _ => Ok tt;
     Image_resize := fun img _ => im_pixels img;
     Image_save := save |}.

(** The format a stored object announces in its first byte. *)
Definition sniff (b : bytes) : option string :=
  match b with
  | tag :: _ => format_of_tag tag
  | [] => None
  end.

(** A service that answers every request, and one that answers every write
    with status 500. *)
Definition healthy : S3Service :=
  {| get_fault := fun _ _ => None;
     put_reply_of := fun _ _ _ => PutResponds 200 |}.

Definition rejecting : S3Service :=
  {| get_fault := fun _ _ => None;
     put_reply_of := fun _ _ _ => PutResponds 500 |}.

Definition record (bucket key : string) : value :=
  VDict [("eventName", VStr "ObjectCreated:Put");
         ("s3", VDict [("bucket", VDict [("name", VStr bucket)]);
                       ("object", VDict [("key", VStr key)])])].

Definition event_of (records : list value) : value :=
  VDict [("Records", VList records)].

Definition event : value := event_of [record "src" "img.jpg"].

Definition event2 : value :=
  event_of [record "src" "img.jpg"; record "other" "ignored.png"].

Definition png_event : value := event_of [record "src" "pic.png"].

Definition context : value := VStr "LambdaContext".

Definition environ : gmap string string := {[ "DEST_BUCKET" := "dst" ]}.

Definition jpeg_800x600 : bytes := encode Byte.xff (800, 600) [Byte.x01; Byte.x02].

Definition png_1000x500 : bytes := encode Byte.x89 (1000, 500) [Byte.x03].

Definition start : world :=
  {| objects := {[ ("src", "img.jpg") := jpeg_800x600;
                   ("src", "pic.png") := png_1000x500 ]};
     history := [] |}.

Definition thumb_500x375 : bytes := encode Byte.xff (500, 375) [Byte.x01; Byte.x02].


End Sample.

(** * Properties *)

(** ** Strings *)

Section StringFacts.
Import PyStr.

Lemma append_nil_l (t : string) : EmptyString +:+ t = t.
Proof. reflexivity. Qed.

Lemma append_cons (a : ascii) (s t : string) :
  String a s +:+ t = String a (s +:+ t).
Proof. reflexivity. Qed.

Lemma append_empty_r (s : string) : s +:+ EmptyString = s.
Proof.
  induction s as [|a s IH]; [reflexivity|]. now rewrite append_cons, IH.
Qed.

Lemma append_assoc (a b c : string) : (a +:+ b) +:+ c = a +:+ (b +:+ c).
Proof.
  induction a as [|x a IH]; [reflexivity|]. now rewrite !append_cons, IH.
Qed.

Lemma len_cons (a : ascii) (s : string) : len (String a s) = 1 + len s.
Proof. unfold len. simpl String.length. lia. Qed.

Lemma len_append (a b : string) : len (a +:+ b) = len a + len b.
Proof.
  induction a as [|x a IH]; [reflexivity|].
  rewrite append_cons, !len_cons, IH. lia.
Qed.

Lemma len_nonneg (s : string) : 0 <= len s.
Proof. unfold len. lia. Qed.

Lemma rfind_range (s : string) (c : ascii) : -1 <= rfind s c < len s.
Proof.
  induction s as [|a s IH]; [cbv; split; congruence|].
  rewrite len_cons. simpl rfind.
  destruct (0 <=? rfind s c) eqn:E.
  - apply Z.leb_le in E. lia.
  - destruct (Ascii.eqb a c); lia.
Qed.

Lemma take_drop (n : nat) (s : string) : take n s +:+ drop n s = s.
Proof.
  revert s. induction n as [|n IH]; intros [|a s]; simpl take; simpl drop;
    try reflexivity.
  now rewrite append_cons, IH.
Qed.

Lemma len_take (n : nat) (s : string) :
  Z.of_nat n <= len s -> len (take n s) = Z.of_nat n.
Proof.
  revert s. induction n as [|n IH]; intros [|a s] H; simpl take;
    try reflexivity.
  - unfold len in H. simpl in H. lia.
  - rewrite len_cons in *. rewrite IH; lia.
Qed.

Lemma rfind_app_absent (a b : string) (c : ascii) :
  rfind b c = -1 -> rfind (a +:+ b) c = rfind a c.
Proof.
  intros Hb. induction a as [|x a IH]; [exact Hb|].
  rewrite append_cons. simpl rfind. now rewrite IH.
Qed.

Lemma rfind_app_present (a b : string) (c : ascii) :
  0 <= rfind b c -> rfind (a +:+ b) c = len a + rfind b c.
Proof.
  intros Hb. induction a as [|x a IH]; [reflexivity|].
  rewrite append_cons, len_cons. simpl rfind. rewrite IH.
  pose proof (len_nonneg a).
  destruct (0 <=? _) eqn:E; [lia|]. apply Z.leb_gt in E. lia.
Qed.

Lemma slice1_cons (x : ascii) (a : string) (i : Z) :
  0 <= i -> slice1 (String x a) (1 + i) = slice1 a i.
Proof.
  intros H. unfold slice1.
  replace (Z.to_nat (1 + i)) with (S (Z.to_nat i)) by lia. reflexivity.
Qed.

Lemma slice1_app_l (a b : string) (i : Z) :
  0 <= i < len a -> slice1 (a +:+ b) i = slice1 a i.
Proof.
  revert i. induction a as [|x a IH]; intros i H.
  - unfold len in H. simpl in H. lia.
  - rewrite append_cons. rewrite len_cons in H.
    destruct (Z.eq_dec i 0) as [->|Hi]; [reflexivity|].
    replace i with (1 + (i - 1)) by lia.
    rewrite !slice1_cons by lia. apply IH. lia.
Qed.

Lemma slice1_app_r (a b : string) (j : Z) :
  0 <= j -> slice1 (a +:+ b) (len a + j) = slice1 b j.
Proof.
  intros H. induction a as [|x a IH]; [reflexivity|].
  rewrite append_cons, len_cons.
  pose proof (len_nonneg a).
  replace (1 + len a + j) with (1 + (len a + j)) by lia.
  rewrite slice1_cons by lia. exact IH.
Qed.

End StringFacts.

(** ** Key derivation *)

Section KeyDerivation.
Import PyStr OsPath.

Lemma slice_to_0 (p : string) : slice_to p 0 = EmptyString.
Proof. unfold slice_to. simpl. destruct p; reflexivity. Qed.

(** The loop of [_splitext] returns the split exactly when some character
    between the last separator and the last dot is not a dot. *)
Lemma _splitext_loop_spec (n : nat) (p : string) (i d : Z) :
  _splitext_loop n p extsep i d =
  if has_non_dot n p i then (slice_to p d, slice_from p d) else (p, EmptyString).
Proof.
  revert i. induction n as [|n IH]; intros i; simpl.
  - now rewrite slice_to_0.
  - destruct (negb _); simpl; [reflexivity | apply IH].
Qed.

Lemma splitext_spec (key : string) :
  splitext key =
  let dotIndex := rfind key extsep in
  let sepIndex := rfind key sep in
  if (sepIndex <? dotIndex)
     && has_non_dot (Z.to_nat (dotIndex - (sepIndex + 1))) key (sepIndex + 1)
  then (slice_to key dotIndex, slice_from key dotIndex)
  else (key, EmptyString).
Proof.
  unfold splitext, _splitext. cbv zeta.
  destruct (rfind key sep <? rfind key extsep); simpl.
  - apply _splitext_loop_spec.
  - now rewrite slice_to_0.
Qed.

Lemma splitext_concat (key : string) :
  fst (splitext key) +:+ snd (splitext key) = key.
Proof.
  rewrite splitext_spec. cbv zeta.
  destruct (_ && _); simpl.
  - apply take_drop.
  - apply append_empty_r.
Qed.

End KeyDerivation.

(** C1, as stated: the destination key is built from the split
    of the key at its last dot. The key ["a.b/pic"] has its last dot in a
    directory name; the handler leaves the key whole and appends the
    suffix, where the split at the last dot would give
    ["a_thumbnail.b/pic"]. *)
Lemma thumbnail_key_not_last_dot_split :
  thumbnail_key "a.b/pic" = "a.b/pic_thumbnail" /\
  thumbnail_key "a.b/pic" <>
    fst (split_at_last_extsep "a.b/pic") +:+ "_thumbnail"
      +:+ snd (split_at_last_extsep "a.b/pic").
Proof. split; [reflexivity | discriminate]. Qed.

(** C1, amended: for every source key the destination key is
    [name + "_thumbnail" + ext] where [(name, ext)] is the split of
    [os.path.splitext]: the split of the key at its last dot when that dot
    stands after the last slash and some character between that slash (or
    the start of the key) and the dot is not a dot; otherwise [name] is the
    whole key and [ext] is empty. ["a/b/pic.png"] gives
    ["a/b/pic_thumbnail.png"] and ["a/b/pic"] gives ["a/b/pic_thumbnail"]. *)
Theorem thumbnail_key_spec :
  (forall key : string,
      let dotIndex := PyStr.rfind key OsPath.extsep in
      let sepIndex := PyStr.rfind key OsPath.sep in
      thumbnail_key key =
      if (sepIndex <? dotIndex)
         && has_non_dot (Z.to_nat (dotIndex - (sepIndex + 1))) key (sepIndex + 1)
      then fst (split_at_last_extsep key) +:+ "_thumbnail"
             +:+ snd (split_at_last_extsep key)
      else key +:+ "_thumbnail") /\
  thumbnail_key "a/b/pic.png" = "a/b/pic_thumbnail.png" /\
  thumbnail_key "a/b/pic" = "a/b/pic_thumbnail".
Proof.
  split; [|split; reflexivity].
  intros key dotIndex sepIndex. unfold thumbnail_key.
  rewrite splitext_spec. cbv zeta. fold dotIndex sepIndex.
  destruct (sepIndex <? dotIndex) eqn:Hlt; simpl.
  - destruct (has_non_dot _ _ _).
    + unfold split_at_last_extsep. fold dotIndex.
      apply Z.ltb_lt in Hlt.
      pose proof (rfind_range key OsPath.sep) as Hs. fold sepIndex in Hs.
      destruct (dotIndex <? 0) eqn:Hneg; [apply Z.ltb_lt in Hneg; lia|].
      reflexivity.
    + now rewrite append_empty_r.
  - now rewrite append_empty_r.
Qed.

(** ** The size computed by [Image.thumbnail] *)

Section ThumbnailSize.










End ThumbnailSize.



(** ** The extension of the destination key *)

Section ExtensionKept.
Import PyStr OsPath.

Lemma take_app_len (a b : string) : take (String.length a) (a +:+ b) = a.
Proof.
  induction a as [|x a IH]; [destruct b; reflexivity|].
  rewrite append_cons. simpl. now rewrite IH.
Qed.

Lemma drop_app_len (a b : string) : drop (String.length a) (a +:+ b) = b.
Proof.
  induction a as [|x a IH]; [destruct b; reflexivity|].
  rewrite append_cons. simpl. exact IH.
Qed.

Lemma has_non_dot_app_l (n : nat) (a b : string) (i : Z) :
  0 <= i -> i + Z.of_nat n <= len a ->
  has_non_dot n (a +:+ b) i = has_non_dot n a i.
Proof.
  revert i. induction n as [|n IH]; intros i Hi Hn; [reflexivity|].
  simpl. rewrite slice1_app_l by lia. rewrite IH by lia. reflexivity.
Qed.

Lemma has_non_dot_at (n : nat) (p : string) (i j : Z) :
  i <= j < i + Z.of_nat n ->
  String.eqb (slice1 p j) (String extsep EmptyString) = false ->
  has_non_dot n p i = true.
Proof.
  revert i. induction n as [|n IH]; intros i Hj Hc; [lia|].
  simpl. destruct (Z.eq_dec i j) as [->|Hne].
  - now rewrite Hc.
  - rewrite (IH (i + 1)) by (lia || assumption). apply orb_true_r.
Qed.

(** The part of a key from its last occurrence of [c] on starts with that
    occurrence and holds no other; the part before holds none of the
    characters that do not occur later. *)
Lemma rfind_split (key : string) (c : ascii) :
  let d := rfind key c in
  0 <= d ->
  len (slice_to key d) = d /\ rfind (slice_from key d) c = 0.
Proof.
  intros d Hd. pose proof (rfind_range key c) as Hr. fold d in Hr.
  assert (Hlen : len (slice_to key d) = d).
  { unfold slice_to. rewrite len_take; lia. }
  split; [exact Hlen|].
  pose proof (take_drop (Z.to_nat d) key) as Hkey.
  fold (slice_to key d) (slice_from key d) in Hkey.
  pose proof (rfind_range (slice_from key d) c) as Hs.
  destruct (Z_lt_le_dec (rfind (slice_from key d) c) 0) as [Hneg|Hpos].
  - assert (Habs : rfind (slice_from key d) c = -1) by lia.
    pose proof (rfind_app_absent (slice_to key d) _ c Habs) as Heq.
    rewrite Hkey in Heq. pose proof (rfind_range (slice_to key d) c). 
    fold d in Heq. lia.
  - pose proof (rfind_app_present (slice_to key d) _ c Hpos) as Heq.
    rewrite Hkey in Heq. fold d in Heq. lia.
Qed.

Lemma rfind_before (key : string) (c : ascii) (d : Z) :
  rfind key c < d -> 0 <= d <= len key ->
  rfind (slice_from key d) c = -1 /\ rfind (slice_to key d) c = rfind key c.
Proof.
  intros Hlt Hd.
  assert (Hlen : len (slice_to key d) = d).
  { unfold slice_to. rewrite len_take; lia. }
  pose proof (take_drop (Z.to_nat d) key) as Hkey.
  fold (slice_to key d) (slice_from key d) in Hkey.
  pose proof (rfind_range (slice_from key d) c) as Hs.
  destruct (Z_lt_le_dec (rfind (slice_from key d) c) 0) as [Hneg|Hpos].
  - assert (Habs : rfind (slice_from key d) c = -1) by lia.
    split; [exact Habs|].
    pose proof (rfind_app_absent (slice_to key d) _ c Habs) as Heq.
    now rewrite Hkey in Heq.
  - pose proof (rfind_app_present (slice_to key d) _ c Hpos) as Heq.
    rewrite Hkey in Heq. lia.
Qed.

Lemma splitext_thumbnail_key (key : string) :
  splitext (thumbnail_key key) =
  (fst (splitext key) +:+ "_thumbnail", snd (splitext key)).
Proof.
  unfold thumbnail_key. rewrite (splitext_spec key). cbv zeta.
  set (d := rfind key extsep). set (s := rfind key sep).
  pose proof (rfind_range key extsep) as Hd. fold d in Hd.
  pose proof (rfind_range key sep) as Hs. fold s in Hs.
  destruct ((s <? d) && has_non_dot (Z.to_nat (d - (s + 1))) key (s + 1))
    eqn:Hcond; cbn [fst snd].
  - apply andb_prop in Hcond. destruct Hcond as [Hlt Hdots].
    apply Z.ltb_lt in Hlt.
    destruct (rfind_split key extsep ltac:(fold d; lia)) as [Hlen Hdot].
    fold d in Hlen, Hdot.
    destruct (rfind_before key sep d ltac:(fold s; lia) ltac:(lia)) as [Hnosep Hsep].
    fold s in Hsep.
    set (nm := slice_to key d) in *. set (ext := slice_from key d) in *.
    rewrite splitext_spec. cbv zeta.
    assert (Hd' : rfind (nm +:+ "_thumbnail" +:+ ext) extsep = d + 10).
    { assert (Hin : rfind ("_thumbnail" +:+ ext) extsep = 10).
      { rewrite rfind_app_present by lia. rewrite Hdot. reflexivity. }
      rewrite rfind_app_present; rewrite Hin; lia. }
    assert (Hs' : rfind (nm +:+ "_thumbnail" +:+ ext) sep = s).
    { rewrite rfind_app_absent; [exact Hsep|].
      rewrite rfind_app_absent; [reflexivity | exact Hnosep]. }
    rewrite Hd', Hs'.
    assert (Hlt' : (s <? d + 10) = true) by (apply Z.ltb_lt; lia).
    rewrite Hlt'. cbn [andb].
    rewrite (has_non_dot_at _ _ (s + 1) d).
    + unfold slice_to, slice_from.
      replace (Z.to_nat (d + 10)) with (String.length (nm +:+ "_thumbnail")).
      * rewrite <- append_assoc. now rewrite take_app_len, drop_app_len.
      * pose proof (len_append nm "_thumbnail") as HL. unfold len in HL at 1.
        change (len "_thumbnail") with 10 in HL. lia.
    + lia.
    + rewrite <- Hlen. replace (len nm) with (len nm + 0) by lia.
      rewrite slice1_app_r by lia. reflexivity.
  - rewrite append_empty_r. rewrite splitext_spec. cbv zeta.
    rewrite !rfind_app_absent by reflexivity. fold d s.
    destruct (s <? d) eqn:Hlt; cbn [andb] in *; [|reflexivity].
    apply Z.ltb_lt in Hlt.
    rewrite has_non_dot_app_l by lia. now rewrite Hcond.
Qed.

Lemma len_thumbnail_key (key : string) :
  len (thumbnail_key key) = len key + 10.
Proof.
  unfold thumbnail_key. pose proof (splitext_concat key) as H.
  destruct (splitext key) as [nm ext]. simpl in H. subst key.
  rewrite !len_append. change (len "_thumbnail") with 10. lia.
Qed.

Lemma thumbnail_key_fresh (key : string) : thumbnail_key key <> key.
Proof.
  intros H. pose proof (len_thumbnail_key key) as HL. rewrite H in HL. lia.
Qed.

End ExtensionKept.

(** ** Runs of the handler *)

Ltac run_handler :=
  unfold lambda_handler, logger_info, get_object, put_object, emit, lift, raise,
    environ_getitem, fspath;
  cbv beta iota delta [mbind M_bind mret M_ret].

(** Case analysis on every test the unfolded handler in [H] makes, from the
    outside in. *)
Ltac split_run H :=
  repeat match type of H with
    | context [match ?x with _ => _ end] =>
        lazymatch x with
        | context [match _ with _ => _ end] => fail
        | _ => destruct x eqn:?
        end
    end;
  injection H as <- <-.

Lemma effects_since_app (w : world) (objs : gmap (string * string) bytes)
      (es : list effect) :
  effects_since w {| objects := objs; history := history w ++ es |} = es.
Proof. unfold effects_since. simpl. apply drop_app_length. Qed.

Ltac settle_effects :=
  cbn [objects history] in *; repeat rewrite <- app_assoc; simpl app;
  rewrite ?effects_since_app.

(** Every run either stops before the upload, with an error, an untouched
    bucket and no write requested, or goes through every stage up to the
    one [put_object] call, whose answer decides the result. *)
Lemma lambda_handler_cases pil s3 env event ctx w r w' :
  lambda_handler pil s3 env event ctx w = (r, w') ->
  (exists e, r = Raise e /\ objects w' = objects w /\
             put_calls (effects_since w w') = []) \/
  (exists bucket key tb file_byte_string img img' buffer,
      subscript event bucket_path = Ok (VStr bucket) /\
      subscript event key_path = Ok (VStr key) /\
      env !! "DEST_BUCKET" = Some tb /\
      get_fault s3 bucket key = None /\
      objects w !! (bucket, key) = Some file_byte_string /\
      Image_open pil file_byte_string = Ok img /\
      thumbnail pil img (500, 500) = Ok img' /\
      Image_save pil img' "JPEG" = Ok buffer /\
      effects_since w w' =
        [LogInfo (Format "event: {}" [event]);
         LogInfo (Format "context: {}" [ctx]);
         LogInfo (Format "Bucket name: {}, file name: {}, Thumbnail Bucket name: {}, file name: {}"
                         [VStr bucket; VStr key; VStr tb; VStr (thumbnail_key key)]);
         GetObject (VStr bucket) key;
         LogInfo (Format "Size before compression: {}" [size_value (im_size img)]);
         LogInfo (Format "Size after compression: {}" [size_value (im_size img')]);
         PutObject tb (thumbnail_key key) buffer] /\
      match put_reply_of s3 tb (thumbnail_key key) buffer with
      | PutRaises e => r = Raise e /\ objects w' = objects w
      | PutResponds status =>
          if status =? 200
          then r = Ok event /\
               objects w' = <[(tb, thumbnail_key key) := buffer]> (objects w)
          else r = Raise (upload_failed key bucket) /\ objects w' = objects w
      end).
Proof.
  run_handler. intros H. split_run H; settle_effects.
  all: try (cbn [negb] in *; discriminate).
  all: try (left; eexists; repeat split; reflexivity).
  all: right; do 7 eexists; do 9 (split; [eassumption || reflexivity|]).
  all: match goal with H : put_reply_of _ _ _ _ = _ |- _ => rewrite H end.
  all: try match goal with H : (_ =? 200) = _ |- _ => rewrite H end.
  all: split; reflexivity.
Qed.

(** ** What a run returns *)

Lemma success_value pil s3 env event ctx w v w' :
  lambda_handler pil s3 env event ctx w = (Ok v, w') -> v = event.
Proof.
  intros H. apply lambda_handler_cases in H.
  destruct H as [(e & He & _) | (b & k & tb & bs & img & img' & buf & H)];
    [discriminate|].
  destruct H as (_ & _ & _ & _ & _ & _ & _ & _ & _ & Hreply).
  destruct (put_reply_of _ _ _ _) as [e|status].
  - destruct Hreply as [[=] _].
  - destruct (status =? 200); destruct Hreply as [[=] _]. congruence.
Qed.

(** C3: a successful invocation returns the event it was given, unchanged;
    the value is the same whatever the environment, the bucket contents,
    the service and the codecs were, so it tells nothing about the
    destination key or the size of the thumbnail. *)
Theorem handler_returns_event pil s3 env event ctx w v w' :
  lambda_handler pil s3 env event ctx w = (Ok v, w') ->
  v = event /\
  (forall pil2 s32 env2 ctx2 w2 v2 w2',
      lambda_handler pil2 s32 env2 event ctx2 w2 = (Ok v2, w2') -> v2 = v).
Proof.
  intros H. apply success_value in H. subst v. split; [reflexivity|].
  intros. eapply success_value. eassumption.
Qed.

Lemma handler_returns_event_sample :
  lambda_handler Sample.pil Sample.healthy Sample.environ Sample.event
                 Sample.context Sample.start
  = (Ok Sample.event,
     snd (lambda_handler Sample.pil Sample.healthy Sample.environ Sample.event
                         Sample.context Sample.start)) /\
  (Sample.event = Sample.event /\
   forall pil2 s32 env2 ctx2 w2 v2 w2',
     lambda_handler pil2 s32 env2 Sample.event ctx2 w2 = (Ok v2, w2') ->
     v2 = Sample.event).
Proof.
  split; [vm_compute; reflexivity|].
  apply (handler_returns_event Sample.pil Sample.healthy Sample.environ
           Sample.event Sample.context Sample.start Sample.event
           (snd (lambda_handler Sample.pil Sample.healthy Sample.environ
                                Sample.event Sample.context Sample.start))).
  vm_compute. reflexivity.
Defined.

(** ** The failed upload *)

Lemma render_upload_failed (key bucket : string) :
  render (Format "Failed to upload image {} to bucket {}" [VStr key; VStr bucket])
  = Some ("Failed to upload image " +:+ key +:+ " to bucket " +:+ bucket).
Proof.
  cbn. rewrite append_empty_r. reflexivity.
Qed.

Lemma put_call_inv pil s3 env event ctx w r w' b k body :
  lambda_handler pil s3 env event ctx w = (r, w') ->
  In (PutObject b k body) (effects_since w w') ->
  exists bucket key file_byte_string img img',
    subscript event bucket_path = Ok (VStr bucket) /\
    subscript event key_path = Ok (VStr key) /\
    env !! "DEST_BUCKET" = Some b /\
    k = thumbnail_key key /\
    get_fault s3 bucket key = None /\
    objects w !! (bucket, key) = Some file_byte_string /\
    Image_open pil file_byte_string = Ok img /\
    thumbnail pil img (500, 500) = Ok img' /\
    Image_save pil img' "JPEG" = Ok body /\
    put_calls (effects_since w w') = [PutObject b k body] /\
    match put_reply_of s3 b k body with
    | PutRaises e => r = Raise e /\ objects w' = objects w
    | PutResponds status =>
        if status =? 200
        then r = Ok event /\ objects w' = <[(b, k) := body]> (objects w)
        else r = Raise (upload_failed key bucket) /\ objects w' = objects w
    end.
Proof.
  intros H Hin. apply lambda_handler_cases in H.
  destruct H as [(e & He & _ & Hnone) | (bk & key & tb & bs & img & img' & buf & H)].
  - exfalso. assert (Hp : In (PutObject b k body) (put_calls (effects_since w w'))).
    { apply filter_In. split; [exact Hin | reflexivity]. }
    rewrite Hnone in Hp. destruct Hp.
  - destruct H as (Hb & Hk & Htb & Hf & Hobj & Hopen & Hth & Hsave & Hes & Hreply).
    rewrite Hes in Hin. simpl in Hin.
    repeat (destruct Hin as [Hin|Hin]; [try discriminate|]); [|destruct Hin].
    injection Hin as <- <- <-.
    exists bk, key, bs, img, img'. rewrite Hes.
    repeat (split; [assumption || reflexivity|]). exact Hreply.
Qed.

(** C5: when the answer to the upload carries a status other than 200, the
    handler raises the error of line 45, whose message is built from the
    key and the bucket of the source object as the event names them; the
    write itself went to the bucket of [DEST_BUCKET] under the derived key,
    which is never the source key. *)
Theorem upload_failure_names_source pil s3 env event ctx w r w' b k body status :
  lambda_handler pil s3 env event ctx w = (r, w') ->
  In (PutObject b k body) (effects_since w w') ->
  put_reply_of s3 b k body = PutResponds status ->
  status <> 200 ->
  exists key bucket,
    subscript event key_path = Ok (VStr key) /\
    subscript event bucket_path = Ok (VStr bucket) /\
    r = Raise (Exception (Format "Failed to upload image {} to bucket {}"
                                 [VStr key; VStr bucket])) /\
    render (Format "Failed to upload image {} to bucket {}"
                   [VStr key; VStr bucket])
    = Some ("Failed to upload image " +:+ key +:+ " to bucket " +:+ bucket) /\
    env !! "DEST_BUCKET" = Some b /\
    k = thumbnail_key key /\ k <> key.
Proof.
  intros H Hin Hreply Hstatus.
  destruct (put_call_inv _ _ _ _ _ _ _ _ _ _ _ H Hin)
    as (bucket & key & bs & img & img' & Hb & Hk & Htb & -> & _ & _ & _ & _ & _ & _ & Hr).
  rewrite Hreply in Hr. apply Z.eqb_neq in Hstatus. rewrite Hstatus in Hr.
  destruct Hr as [-> _].
  exists key, bucket. repeat split; try assumption.
  - apply render_upload_failed.
  - apply thumbnail_key_fresh.
Qed.

Lemma upload_failure_names_source_sample :
  let run := lambda_handler Sample.pil Sample.rejecting Sample.environ
                            Sample.event Sample.context Sample.start in
  (run = (fst run, snd run) /\
   In (PutObject "dst" "img_thumbnail.jpg" Sample.thumb_500x375)
      (effects_since Sample.start (snd run)) /\
   put_reply_of Sample.rejecting "dst" "img_thumbnail.jpg" Sample.thumb_500x375
   = PutResponds 500 /\
   500 <> 200) /\
  exists key bucket,
    subscript Sample.event key_path = Ok (VStr key) /\
    subscript Sample.event bucket_path = Ok (VStr bucket) /\
    fst run = Raise (Exception (Format "Failed to upload image {} to bucket {}"
                                       [VStr key; VStr bucket])) /\
    render (Format "Failed to upload image {} to bucket {}"
                   [VStr key; VStr bucket])
    = Some ("Failed to upload image " +:+ key +:+ " to bucket " +:+ bucket) /\
    Sample.environ !! "DEST_BUCKET" = Some "dst" /\
    "img_thumbnail.jpg" = thumbnail_key key /\ "img_thumbnail.jpg" <> key.
Proof.
  intros run.
  assert (Hin : In (PutObject "dst" "img_thumbnail.jpg" Sample.thumb_500x375)
                   (effects_since Sample.start (snd run))).
  { vm_compute. do 6 right. left. reflexivity. }
  split; [repeat split; [exact Hin | discriminate]|].
  apply (upload_failure_names_source Sample.pil Sample.rejecting Sample.environ
           Sample.event Sample.context Sample.start (fst run) (snd run)
           "dst" "img_thumbnail.jpg" Sample.thumb_500x375 500);
    [reflexivity | exact Hin | reflexivity | discriminate].
Defined.

(** ** One write, all or nothing *)

(** C6: an invocation asks for at most one write. If it returns, it asked
    for exactly one, to the bucket of [DEST_BUCKET] under the derived key,
    and that key now holds the encoded thumbnail. A write is asked for only
    after the configuration was read and the fetch, the decoding, the
    resizing and the encoding all succeeded, so a failure of any of them
    means no [put_object] call; and whenever the invocation raises, the
    bucket contents are what they were. *)
Theorem at_most_one_write pil s3 env event ctx w r w' :
  lambda_handler pil s3 env event ctx w = (r, w') ->
  let es := effects_since w w' in
  (length (put_calls es) <= 1)%nat /\
  (forall v, r = Ok v ->
     exists tb key body,
       env !! "DEST_BUCKET" = Some tb /\
       subscript event key_path = Ok (VStr key) /\
       put_calls es = [PutObject tb (thumbnail_key key) body] /\
       objects w' = <[(tb, thumbnail_key key) := body]> (objects w) /\
       objects w' !! (tb, thumbnail_key key) = Some body) /\
  (forall b k body, In (PutObject b k body) es ->
     exists bucket key file_byte_string img img',
       env !! "DEST_BUCKET" = Some b /\
       subscript event bucket_path = Ok (VStr bucket) /\
       subscript event key_path = Ok (VStr key) /\
       get_fault s3 bucket key = None /\
       objects w !! (bucket, key) = Some file_byte_string /\
       Image_open pil file_byte_string = Ok img /\
       thumbnail pil img (500, 500) = Ok img' /\
       Image_save pil img' "JPEG" = Ok body) /\
  (forall e, r = Raise e -> objects w' = objects w).
Proof.
  intros H es. pose proof (lambda_handler_cases _ _ _ _ _ _ _ _ H) as Hc.
  split; [|split; [|split]].
  - destruct Hc as [(e & _ & _ & Hnone) | (bk & key & tb & bs & img & img' & buf & Hc)].
    + subst es. rewrite Hnone. simpl. lia.
    + destruct Hc as (_ & _ & _ & _ & _ & _ & _ & _ & Hes & _).
      subst es. rewrite Hes. simpl. lia.
  - intros v ->.
    destruct Hc as [(e & [=] & _) | (bk & key & tb & bs & img & img' & buf & Hc)].
    destruct Hc as (_ & Hk & Htb & _ & _ & _ & _ & _ & Hes & Hreply).
    exists tb, key, buf. subst es. rewrite Hes.
    destruct (put_reply_of _ _ _ _) as [e|status]; [destruct Hreply as [[=] _]|].
    destruct (status =? 200); destruct Hreply as [[=] Hobj].
    repeat split; try assumption. rewrite Hobj. apply lookup_insert_eq.
  - intros b k body Hin.
    destruct (put_call_inv _ _ _ _ _ _ _ _ _ _ _ H Hin)
      as (bucket & key & bs & img & img' & Hb & Hk & Htb & _ & Hf & Ho & Hop & Hth & Hsv & _).
    exists bucket, key, bs, img, img'. repeat split; assumption.
  - intros e ->.
    destruct Hc as [(e' & _ & Hobj & _) | (bk & key & tb & bs & img & img' & buf & Hc)];
      [exact Hobj|].
    destruct Hc as (_ & _ & _ & _ & _ & _ & _ & _ & _ & Hreply).
    destruct (put_reply_of _ _ _ _) as [e'|status]; [tauto|].
    destruct (status =? 200); destruct Hreply as [Hr Hobj]; [discriminate | exact Hobj].
Qed.

Lemma at_most_one_write_sample :
  let run := lambda_handler Sample.pil Sample.healthy Sample.environ
                            Sample.event Sample.context Sample.start in
  run = (fst run, snd run) /\
  (length (put_calls (effects_since Sample.start (snd run))) <= 1)%nat /\
  put_calls (effects_since Sample.start (snd run))
  = [PutObject "dst" "img_thumbnail.jpg" Sample.thumb_500x375] /\
  objects (snd run) !! ("dst", "img_thumbnail.jpg") = Some Sample.thumb_500x375.
Proof.
  intros run.
  pose proof (at_most_one_write Sample.pil Sample.healthy Sample.environ
                Sample.event Sample.context Sample.start (fst run) (snd run)
                eq_refl) as H.
  cbv zeta in H. destruct H as (Hle & _ & _ & _).
  split; [reflexivity|]. split; [exact Hle|].
  split; vm_compute; reflexivity.
Defined.

(** ** The extension of the key and the format of the bytes *)

(** C7: the destination key has the extension of the source key, and the
    bytes written under it are what the JPEG encoder returned for the
    resized image, whatever format the source image was read from; a PNG
    stored as ["pic.png"] ends up as JPEG bytes under
    ["pic_thumbnail.png"]. *)
Theorem extension_kept_bytes_jpeg :
  (forall key : string,
      snd (OsPath.splitext (thumbnail_key key)) = snd (OsPath.splitext key)) /\
  (forall pil s3 env event ctx w r w' b k body,
      lambda_handler pil s3 env event ctx w = (r, w') ->
      In (PutObject b k body) (effects_since w w') ->
      exists bucket key file_byte_string img img',
        subscript event key_path = Ok (VStr key) /\
        k = thumbnail_key key /\
        snd (OsPath.splitext k) = snd (OsPath.splitext key) /\
        objects w !! (bucket, key) = Some file_byte_string /\
        Image_open pil file_byte_string = Ok img /\
        thumbnail pil img (500, 500) = Ok img' /\
        im_format img' = im_format img /\
        Image_save pil img' "JPEG" = Ok body) /\
  (let run := lambda_handler Sample.pil Sample.healthy Sample.environ
                             Sample.png_event Sample.context Sample.start in
   Sample.sniff Sample.png_1000x500 = Some "PNG" /\
   exists body,
     put_calls (effects_since Sample.start (snd run))
     = [PutObject "dst" "pic_thumbnail.png" body] /\
     Sample.sniff body = Some "JPEG").
Proof.
  split; [|split].
  - intros key. now rewrite splitext_thumbnail_key.
  - intros pil s3 env event ctx w r w' b k body H Hin.
    destruct (put_call_inv _ _ _ _ _ _ _ _ _ _ _ H Hin)
      as (bucket & key & bs & img & img' & Hb & Hk & Htb & -> & Hf & Ho & Hop & Hth & Hsv & _).
    exists bucket, key, bs, img, img'.
    repeat split; try assumption.
    + now rewrite splitext_thumbnail_key.
    + revert Hth. unfold thumbnail.
      destruct (preserve_aspect_ratio _ _ _) as [[final|]|]; cbn;
        [|intros [= <-]; reflexivity | discriminate].
      destruct (Image_load pil img); cbn; [|discriminate].
      destruct (negb _); intros [= <-]; reflexivity.
  - split; [reflexivity|]. eexists. split; vm_compute; reflexivity.
Qed.

Lemma extension_kept_bytes_jpeg_sample :
  snd (OsPath.splitext (thumbnail_key "pic.png")) = snd (OsPath.splitext "pic.png").
Proof. exact (proj1 extension_kept_bytes_jpeg "pic.png"). Defined.


(** ** Failures before the first storage call *)

Lemma effects_since_echoed (event ctx : value) (w : world) :
  effects_since w (echoed event ctx w)
  = [LogInfo (Format "event: {}" [event]); LogInfo (Format "context: {}" [ctx])].
Proof. unfold echoed. apply effects_since_app. Qed.

(** When the event does not yield a bucket name and a key, the handler
    stops at lines 17-18 with the error of the failing subscript. *)
Lemma extraction_failure pil s3 env event ctx w e :
  subscript event bucket_path = Raise e \/
  (exists b, subscript event bucket_path = Ok b /\
             subscript event key_path = Raise e) ->
  lambda_handler pil s3 env event ctx w = (Raise e, echoed event ctx w).
Proof.
  intros [Hb | (b & Hb & Hk)]; run_handler; rewrite Hb; try rewrite Hk;
    unfold echoed; cbn [objects history]; now rewrite <- app_assoc.
Qed.

(** With a bucket name and a key in hand, the next thing the handler does
    is to read [DEST_BUCKET]. *)
Lemma missing_dest_bucket pil s3 env event ctx w b k :
  subscript event bucket_path = Ok b ->
  subscript event key_path = Ok k ->
  env !! "DEST_BUCKET" = None ->
  lambda_handler pil s3 env event ctx w
  = (Raise (KeyError (KStr "DEST_BUCKET")), echoed event ctx w).
Proof.
  intros Hb Hk He. run_handler. rewrite Hb, Hk, He.
  unfold echoed; cbn [objects history]; now rewrite <- app_assoc.
Qed.




(** C4, as stated: with [DEST_BUCKET] unset the error is the
    missing-variable one for every event. An event without ["Records"]
    fails earlier, at line 17, with the [KeyError] of that subscript. *)
Lemma unset_dest_bucket_empty_event :
  (∅ : gmap string string) !! "DEST_BUCKET" = None /\
  fst (lambda_handler Sample.pil Sample.healthy ∅ (VDict []) Sample.context
                      Sample.start)
  = Raise (KeyError (KStr "Records")) /\
  fst (lambda_handler Sample.pil Sample.healthy ∅ (VDict []) Sample.context
                      Sample.start)
  <> Raise (KeyError (KStr "DEST_BUCKET")).
Proof. split; [reflexivity|]. split; [reflexivity | discriminate]. Qed.

(** C4, amended: if [DEST_BUCKET] is unset, every invocation fails having
    done nothing but write its first two log lines: no [get_object] call,
    no write, the bucket contents untouched. For an event from which
    lines 17-18 read a bucket name and a key the error is the
    missing-variable one, [KeyError('DEST_BUCKET')]; for any other event it
    is the error of the failing subscript. *)
Theorem unset_dest_bucket_fails_before_fetch pil s3 env event ctx w :
  env !! "DEST_BUCKET" = None ->
  exists e,
    lambda_handler pil s3 env event ctx w = (Raise e, echoed event ctx w) /\
    storage_calls (effects_since w (echoed event ctx w)) = [] /\
    objects (echoed event ctx w) = objects w /\
    (forall b k,
        subscript event bucket_path = Ok b ->
        subscript event key_path = Ok k ->
        e = KeyError (KStr "DEST_BUCKET")) /\
    ((forall b, subscript event bucket_path <> Ok b) \/
     (forall k, subscript event key_path <> Ok k) ->
     subscript event bucket_path = Raise e \/
     subscript event key_path = Raise e).
Proof.
  intros He. rewrite effects_since_echoed.
  destruct (subscript event bucket_path) as [b|e] eqn:Hb.
  - destruct (subscript event key_path) as [k|e] eqn:Hk.
    + exists (KeyError (KStr "DEST_BUCKET")).
      split; [now apply (missing_dest_bucket _ _ _ _ _ _ b k)|].
      repeat split; try reflexivity.
      intros [Hn|Hn]; [destruct (Hn b) | destruct (Hn k)]; reflexivity.
    + exists e. split; [apply extraction_failure; eauto|].
      repeat split; try reflexivity; [discriminate | auto].
  - exists e. split; [apply extraction_failure; auto|].
    repeat split; try reflexivity; [discriminate | auto].
Qed.

Lemma unset_dest_bucket_fails_before_fetch_sample :
  (∅ : gmap string string) !! "DEST_BUCKET" = None /\
  exists e,
    lambda_handler Sample.pil Sample.healthy ∅ Sample.event Sample.context
                   Sample.start
    = (Raise e, echoed Sample.event Sample.context Sample.start) /\
    storage_calls (effects_since Sample.start
                     (echoed Sample.event Sample.context Sample.start)) = [] /\
    e = KeyError (KStr "DEST_BUCKET").
Proof.
  assert (Hunset : (∅ : gmap string string) !! "DEST_BUCKET" = None)
    by reflexivity.
  split; [exact Hunset|].
  destruct (unset_dest_bucket_fails_before_fetch Sample.pil Sample.healthy ∅
              Sample.event Sample.context Sample.start Hunset)
    as (e & Hrun & Hcalls & _ & Hkey & _).
  exists e. split; [exact Hrun|]. split; [exact Hcalls|].
  apply (Hkey (VStr "src") (VStr "img.jpg")); reflexivity.
Defined.





(** ** Only the first record counts *)

(** Two runs side by side: case analysis on the tests of the first, which
    the second makes on the same values. *)
Ltac split_runs H1 H2 :=
  repeat (cbn [objects history] in H1, H2;
          match type of H1 with
          | context [match ?x with _ => _ end] =>
              lazymatch x with
              | context [match _ with _ => _ end] => fail
              | _ => destruct x eqn:?
              end
          end);
  injection H1 as <- <-; injection H2 as <- <-.

(** C8: two events from which lines 17-18 read the same bucket name and
    the same key (the first record is the only one consulted) are handled
    alike, whatever else they hold: the same storage calls, the same
    bucket contents afterwards, the same log lines but for the echo of the
    event itself, and the same error, or success for both, each returning
    its own event. *)
Theorem later_records_ignored pil s3 env event1 event2 ctx w b k r1 w1 r2 w2 :
  subscript event1 bucket_path = Ok b ->
  subscript event2 bucket_path = Ok b ->
  subscript event1 key_path = Ok k ->
  subscript event2 key_path = Ok k ->
  lambda_handler pil s3 env event1 ctx w = (r1, w1) ->
  lambda_handler pil s3 env event2 ctx w = (r2, w2) ->
  objects w1 = objects w2 /\
  (exists rest,
      effects_since w w1 = LogInfo (Format "event: {}" [event1]) :: rest /\
      effects_since w w2 = LogInfo (Format "event: {}" [event2]) :: rest) /\
  storage_calls (effects_since w w1) = storage_calls (effects_since w w2) /\
  ((r1 = Ok event1 /\ r2 = Ok event2) \/ (exists e, r1 = Raise e /\ r2 = Raise e)).
Proof.
  intros Hb1 Hb2 Hk1 Hk2. run_handler. rewrite Hb1, Hb2, Hk1, Hk2.
  intros H1 H2. split_runs H1 H2; settle_effects.
  all: try (cbn [negb] in *; discriminate).
  all: split; [reflexivity|]; split; [eexists; split; reflexivity|].
  all: split; [reflexivity|]; eauto.
Qed.

Lemma later_records_ignored_sample :
  let run1 := lambda_handler Sample.pil Sample.healthy Sample.environ
                             Sample.event Sample.context Sample.start in
  let run2 := lambda_handler Sample.pil Sample.healthy Sample.environ
                             Sample.event2 Sample.context Sample.start in
  (subscript Sample.event bucket_path = Ok (VStr "src") /\
   subscript Sample.event2 bucket_path = Ok (VStr "src") /\
   subscript Sample.event key_path = Ok (VStr "img.jpg") /\
   subscript Sample.event2 key_path = Ok (VStr "img.jpg") /\
   Sample.event <> Sample.event2) /\
  (objects (snd run1) = objects (snd run2) /\
   (exists rest,
       effects_since Sample.start (snd run1)
       = LogInfo (Format "event: {}" [Sample.event]) :: rest /\
       effects_since Sample.start (snd run2)
       = LogInfo (Format "event: {}" [Sample.event2]) :: rest) /\
   storage_calls (effects_since Sample.start (snd run1))
   = storage_calls (effects_since Sample.start (snd run2)) /\
   ((fst run1 = Ok Sample.event /\ fst run2 = Ok Sample.event2) \/
    (exists e, fst run1 = Raise e /\ fst run2 = Raise e))).
Proof.
  intros run1 run2.
  split; [repeat split; try reflexivity; discriminate|].
  apply (later_records_ignored Sample.pil Sample.healthy Sample.environ
           Sample.event Sample.event2 Sample.context Sample.start
           (VStr "src") (VStr "img.jpg")
           (fst run1) (snd run1) (fst run2) (snd run2)); reflexivity.
Defined.

(** ** Invoking twice *)

(** C9: after a successful invocation, a second one with the same event
    and the same [DEST_BUCKET] succeeds too: it derives the same destination
    key, finds the object of the first invocation there and replaces it,
    and the write is answered as the first one was. *)
Theorem second_invocation_overwrites pil s3 env event ctx ctx2 w v w1 :
  lambda_handler pil s3 env event ctx w = (Ok v, w1) ->
  exists tb key body w2,
    env !! "DEST_BUCKET" = Some tb /\
    subscript event key_path = Ok (VStr key) /\
    put_calls (effects_since w w1) = [PutObject tb (thumbnail_key key) body] /\
    objects w1 !! (tb, thumbnail_key key) = Some body /\
    lambda_handler pil s3 env event ctx2 w1 = (Ok v, w2) /\
    put_calls (effects_since w1 w2) = [PutObject tb (thumbnail_key key) body] /\
    objects w2 = <[(tb, thumbnail_key key) := body]> (objects w1) /\
    objects w2 !! (tb, thumbnail_key key) = Some body.
Proof.
  intros H. pose proof (success_value _ _ _ _ _ _ _ _ H) as ->.
  apply lambda_handler_cases in H.
  destruct H as [(e & [=] & _) | (bucket & key & tb & bs & img & img' & buf & H)].
  destruct H as (Hb & Hk & Htb & Hf & Ho & Hop & Hth & Hsv & Hes & Hreply).
  destruct (put_reply_of s3 tb (thumbnail_key key) buf) as [e|status] eqn:Hput;
    [destruct Hreply as [[=] _]|].
  destruct (status =? 200) eqn:Hst; destruct Hreply as [[=] Hobj].
  assert (Hsrc : objects w1 !! (bucket, key) = Some bs).
  { rewrite Hobj, lookup_insert_ne; [exact Ho|].
    intros [= _ Hkey]. exact (thumbnail_key_fresh key Hkey). }
  exists tb, key, buf.
  eexists. split; [exact Htb|]. split; [exact Hk|].
  split; [rewrite Hes; reflexivity|].
  split; [rewrite Hobj; apply lookup_insert_eq|].
  split.
  - run_handler. rewrite Hb, Hk, Htb, Hf. cbn [objects history].
    rewrite Hsrc, Hop, Hth, Hsv, Hput, Hst. cbn [negb objects history].
    reflexivity.
  - settle_effects. cbn [put_calls List.filter is_put].
    split; [reflexivity|]. split; [reflexivity|]. apply lookup_insert_eq.
Qed.

Lemma second_invocation_overwrites_sample :
  let run := lambda_handler Sample.pil Sample.healthy Sample.environ
                            Sample.event Sample.context Sample.start in
  run = (Ok Sample.event, snd run) /\
  exists tb key body w2,
    Sample.environ !! "DEST_BUCKET" = Some tb /\
    subscript Sample.event key_path = Ok (VStr key) /\
    put_calls (effects_since Sample.start (snd run))
    = [PutObject tb (thumbnail_key key) body] /\
    objects (snd run) !! (tb, thumbnail_key key) = Some body /\
    lambda_handler Sample.pil Sample.healthy Sample.environ Sample.event
                   Sample.context (snd run) = (Ok Sample.event, w2) /\
    put_calls (effects_since (snd run) w2)
    = [PutObject tb (thumbnail_key key) body] /\
    objects w2 = <[(tb, thumbnail_key key) := body]> (objects (snd run)) /\
    objects w2 !! (tb, thumbnail_key key) = Some body.
Proof.
  intros run.
  assert (Hrun : run = (Ok Sample.event, snd run)) by (vm_compute; reflexivity).
  split; [exact Hrun|].
  exact (second_invocation_overwrites Sample.pil Sample.healthy Sample.environ
           Sample.event Sample.context Sample.context Sample.start
           Sample.event (snd run) Hrun).
Defined.

(** * Further properties of the key derivation *)

Section KeyFacts.
Import PyStr OsPath.

Lemma rfind_zero_head (s : string) (c : ascii) :
  rfind s c = 0 -> slice1 s 0 = String c EmptyString.
Proof.
  destruct s as [|a t]; [discriminate|]. simpl rfind.
  pose proof (rfind_range t c) as Hr.
  destruct (0 <=? rfind t c) eqn:E; [apply Z.leb_le in E; lia|].
  destruct (Ascii.eqb a c) eqn:Ea; [|discriminate].
  apply Ascii.eqb_eq in Ea. now subst a.
Qed.

Lemma append_cancel_r (a b c : string) : a +:+ c = b +:+ c -> a = b.
Proof.
  intros H.
  assert (Hlen : String.length a = String.length b).
  { pose proof (len_append a c) as Ha. pose proof (len_append b c) as Hb.
    rewrite H in Ha. unfold len in *. lia. }
  rewrite <- (take_app_len a c), H, Hlen. apply take_app_len.
Qed.

Lemma take_app_short (n : nat) (a b : string) :
  (n <= String.length a)%nat -> take n (a +:+ b) = take n a.
Proof.
  revert a. induction n as [|n IH]; intros a Hn.
  - destruct a, b; reflexivity.
  - destruct a as [|x a]; simpl in Hn; [lia|].
    rewrite append_cons. simpl. rewrite IH; [reflexivity | lia].
Qed.

Lemma take_take (n m : nat) (s : string) :
  (n <= m)%nat -> take n (take m s) = take n s.
Proof.
  revert m s. induction n as [|n IH]; intros [|m] [|x s] H; simpl;
    try reflexivity; try lia.
  rewrite IH; [reflexivity | lia].
Qed.

End KeyFacts.

(** X1: [os.path.splitext] cuts the key in two parts that concatenate back
    to the key; the extension is either empty or starts with a dot, holds
    no other dot and no slash, and then the name is not empty. *)
Theorem splitext_parts (key : string) :
  let name := fst (OsPath.splitext key) in
  let ext := snd (OsPath.splitext key) in
  name +:+ ext = key /\
  (ext = EmptyString /\ name = key \/
   PyStr.slice1 ext 0 = "." /\
   PyStr.rfind ext OsPath.extsep = 0 /\
   PyStr.rfind ext OsPath.sep = -1 /\
   1 <= PyStr.len name).
Proof.
  intros name ext. split; [apply splitext_concat|].
  subst name ext. rewrite splitext_spec. cbv zeta.
  set (d := PyStr.rfind key OsPath.extsep). set (s := PyStr.rfind key OsPath.sep).
  pose proof (rfind_range key OsPath.extsep) as Hd. fold d in Hd.
  pose proof (rfind_range key OsPath.sep) as Hs. fold s in Hs.
  destruct ((s <? d) && has_non_dot (Z.to_nat (d - (s + 1))) key (s + 1))
    eqn:Hcond; cbn [fst snd]; [right | left; auto].
  apply andb_prop in Hcond. destruct Hcond as [Hlt Hdots].
  apply Z.ltb_lt in Hlt.
  destruct (rfind_split key OsPath.extsep ltac:(fold d; lia)) as [Hlen Hdot].
  fold d in Hlen, Hdot.
  destruct (rfind_before key OsPath.sep d ltac:(fold s; lia) ltac:(lia))
    as [Hnosep _].
  split; [now apply rfind_zero_head|]. split; [exact Hdot|].
  split; [exact Hnosep|].
  rewrite Hlen.
  destruct (Z.to_nat (d - (s + 1))) as [|n] eqn:Hn; [discriminate|]. lia.
Qed.

(** X2: distinct source keys get distinct destination keys. *)
Theorem thumbnail_key_injective (key1 key2 : string) :
  key1 <> key2 -> thumbnail_key key1 <> thumbnail_key key2.
Proof.
  intros Hne Heq. apply Hne.
  pose proof (splitext_thumbnail_key key1) as H1.
  pose proof (splitext_thumbnail_key key2) as H2.
  rewrite Heq, H2 in H1. injection H1 as Hname Hext.
  apply append_cancel_r in Hname.
  rewrite <- (splitext_concat key1), <- (splitext_concat key2).
  now rewrite Hname, Hext.
Qed.

Lemma thumbnail_key_injective_sample :
  "a/pic.png" <> "a/pic.jpg" /\
  thumbnail_key "a/pic.png" <> thumbnail_key "a/pic.jpg".
Proof.
  assert (H : "a/pic.png" <> "a/pic.jpg") by discriminate.
  split; [exact H | exact (thumbnail_key_injective _ _ H)].
Defined.

(** X3: each application of the key derivation makes the key ten characters
    longer, so a destination key is never its own source key and feeding
    thumbnails back to the handler never reaches a key seen before. *)
Theorem thumbnail_key_grows (key : string) (n m : nat) :
  PyStr.len (Nat.iter n thumbnail_key key) = PyStr.len key + 10 * Z.of_nat n /\
  (n <> m -> Nat.iter n thumbnail_key key <> Nat.iter m thumbnail_key key).
Proof.
  assert (Hlen : forall j, PyStr.len (Nat.iter j thumbnail_key key)
                           = PyStr.len key + 10 * Z.of_nat j).
  { induction j as [|j IH]; [simpl; lia|].
    rewrite Nat.iter_succ, len_thumbnail_key, IH. lia. }
  split; [apply Hlen|].
  intros Hne Heq. pose proof (Hlen n) as Hn. pose proof (Hlen m) as Hm.
  rewrite Heq in Hn. lia.
Qed.

(** X4: the destination key lies in the same directory as the source key:
    its last slash is where the last slash of the source key is, and the
    two keys agree up to and including it. *)
Theorem thumbnail_key_same_directory (key : string) :
  let sepIndex := PyStr.rfind key OsPath.sep in
  PyStr.rfind (thumbnail_key key) OsPath.sep = sepIndex /\
  PyStr.slice_to (thumbnail_key key) (sepIndex + 1)
  = PyStr.slice_to key (sepIndex + 1).
Proof.
  intros s. pose proof (rfind_range key OsPath.sep) as Hs. fold s in Hs.
  pose proof (rfind_range key OsPath.extsep) as Hd.
  unfold thumbnail_key. rewrite splitext_spec. cbv zeta. fold s.
  set (d := PyStr.rfind key OsPath.extsep) in *.
  destruct ((s <? d) && has_non_dot (Z.to_nat (d - (s + 1))) key (s + 1))
    eqn:Hcond.
  - apply andb_prop in Hcond. destruct Hcond as [Hlt _].
    apply Z.ltb_lt in Hlt.
    destruct (rfind_before key OsPath.sep d ltac:(fold s; lia) ltac:(lia))
      as [Hnosep Hname]. fold s in Hname.
    split.
    + rewrite rfind_app_absent; [exact Hname|].
      rewrite rfind_app_absent; [reflexivity | exact Hnosep].
    + unfold PyStr.slice_to. rewrite take_app_short.
      * apply take_take. lia.
      * pose proof (len_take (Z.to_nat d) key) as Hlen.
        unfold PyStr.len in *. lia.
  - split.
    + rewrite rfind_app_absent; reflexivity.
    + unfold PyStr.slice_to, PyStr.len in *. apply take_app_short. lia.
Qed.

Lemma thumbnail_key_grows_sample :
  1%nat <> 0%nat /\
  Nat.iter 1 thumbnail_key "a.png" <> Nat.iter 0 thumbnail_key "a.png".
Proof.
  assert (H : 1%nat <> 0%nat) by discriminate.
  split; [exact H | exact (proj2 (thumbnail_key_grows "a.png" 1 0) H)].
Defined.

(** * Further properties of the resize step *)






(** * Further properties of the handler *)

(** X7: when the source object cannot be fetched (the service reports an
    error, or the bucket has no object under the key), the error reaches
    the caller as it is, after a single [get_object] call for the bucket
    and key of the event; nothing is written. *)
Theorem fetch_failure_propagates pil s3 env event ctx w r w' b k tb e :
  lambda_handler pil s3 env event ctx w = (r, w') ->
  subscript event bucket_path = Ok (VStr b) ->
  subscript event key_path = Ok (VStr k) ->
  env !! "DEST_BUCKET" = Some tb ->
  get_fault s3 b k = Some e \/
  (get_fault s3 b k = None /\ objects w !! (b, k) = None /\
   e = ClientError "NoSuchKey") ->
  r = Raise e /\
  storage_calls (effects_since w w') = [GetObject (VStr b) k] /\
  objects w' = objects w.
Proof.
  intros H Hb Hk Htb Hfail. revert H. run_handler. rewrite Hb, Hk, Htb.
  destruct Hfail as [Hf | (Hf & Ho & ->)]; rewrite Hf; cbn [objects history];
    rewrite ?Ho; intros [= <- <-]; settle_effects; repeat split.
Qed.

Lemma fetch_failure_propagates_sample :
  let event := Sample.event_of [Sample.record "src" "missing.jpg"] in
  let run := lambda_handler Sample.pil Sample.healthy Sample.environ event
                            Sample.context Sample.start in
  (objects Sample.start !! ("src", "missing.jpg") = None) /\
  fst run = Raise (ClientError "NoSuchKey") /\
  storage_calls (effects_since Sample.start (snd run))
  = [GetObject (VStr "src") "missing.jpg"] /\
  objects (snd run) = objects Sample.start.
Proof.
  intros event run.
  assert (Ho : objects Sample.start !! ("src", "missing.jpg") = None)
    by (vm_compute; reflexivity).
  split; [exact Ho|].
  apply (fetch_failure_propagates Sample.pil Sample.healthy Sample.environ
           event Sample.context Sample.start (fst run) (snd run)
           "src" "missing.jpg" "dst");
    [reflexivity | reflexivity | reflexivity | reflexivity |].
  right. split; [reflexivity|]. split; [exact Ho | reflexivity].
Defined.

(** X8: once the source object is fetched, the bytes uploaded are those of
    the decode, resize, encode pipeline; if any of the three steps raises,
    the error reaches the caller as it is, after the one read and without
    any [put_object] call. *)
Theorem processing_decides_upload pil s3 env event ctx w r w' b k tb bs :
  lambda_handler pil s3 env event ctx w = (r, w') ->
  subscript event bucket_path = Ok (VStr b) ->
  subscript event key_path = Ok (VStr k) ->
  env !! "DEST_BUCKET" = Some tb ->
  get_fault s3 b k = None ->
  objects w !! (b, k) = Some bs ->
  match process pil bs with
  | Raise e =>
      r = Raise e /\
      storage_calls (effects_since w w') = [GetObject (VStr b) k] /\
      objects w' = objects w
  | Ok body =>
      storage_calls (effects_since w w')
      = [GetObject (VStr b) k; PutObject tb (thumbnail_key k) body]
  end.
Proof.
  intros H Hb Hk Htb Hf Ho. revert H. run_handler. rewrite Hb, Hk, Htb, Hf.
  cbn [objects history]. rewrite Ho. unfold process.
  cbv beta iota delta [mbind result_bind].
  destruct (Image_open pil bs) as [img|e];
    [|intros [= <- <-]; settle_effects; repeat split].
  destruct (thumbnail pil img (500, 500)) as [img'|e];
    [|intros [= <- <-]; settle_effects; repeat split].
  destruct (Image_save pil img' "JPEG") as [body|e];
    [|intros [= <- <-]; settle_effects; repeat split].
  destruct (put_reply_of s3 tb (thumbnail_key k) body) as [e|status].
  - intros [= <- <-]. settle_effects. reflexivity.
  - destruct (status =? 200); cbn [negb]; intros [= <- <-]; settle_effects;
      reflexivity.
Qed.

Lemma processing_decides_upload_sample :
  let start := {| objects := {[ ("src", "img.jpg") := [Byte.x00] ]};
                  history := [] |} in
  let run := lambda_handler Sample.pil Sample.healthy Sample.environ
                            Sample.event Sample.context start in
  process Sample.pil [Byte.x00]
  = Raise (PillowError "cannot identify image file") /\
  fst run = Raise (PillowError "cannot identify image file") /\
  storage_calls (effects_since start (snd run))
  = [GetObject (VStr "src") "img.jpg"] /\
  objects (snd run) = objects start.
Proof.
  intros start run. split; [reflexivity|].
  exact (processing_decides_upload Sample.pil Sample.healthy Sample.environ
           Sample.event Sample.context start (fst run) (snd run)
           "src" "img.jpg" "dst" [Byte.x00]
           eq_refl eq_refl eq_refl eq_refl eq_refl eq_refl).
Defined.

(** X9: an object key that is not a string stops the handler at line 22
    with a [TypeError], after [DEST_BUCKET] was read and before any storage
    call. *)
Theorem non_string_key_fails pil s3 env event ctx w bucket key tb :
  subscript event bucket_path = Ok bucket ->
  subscript event key_path = Ok key ->
  str_of_value key = None ->
  env !! "DEST_BUCKET" = Some tb ->
  lambda_handler pil s3 env event ctx w = (Raise TypeError, echoed event ctx w) /\
  storage_calls (effects_since w (echoed event ctx w)) = [].
Proof.
  intros Hb Hk Hs Htb. rewrite effects_since_echoed. split; [|reflexivity].
  run_handler. rewrite Hb, Hk, Htb.
  destruct key; try discriminate;
    unfold echoed; cbn [objects history]; now rewrite <- app_assoc.
Qed.

Lemma non_string_key_fails_sample :
  let event :=
    Sample.event_of
      [VDict [("s3", VDict [("bucket", VDict [("name", VStr "src")]);
                            ("object", VDict [("key", VInt 5)])])]] in
  str_of_value (VInt 5) = None /\
  lambda_handler Sample.pil Sample.healthy Sample.environ event Sample.context
                 Sample.start
  = (Raise TypeError, echoed event Sample.context Sample.start).
Proof.
  intros event. split; [reflexivity|].
  apply (non_string_key_fails Sample.pil Sample.healthy Sample.environ event
           Sample.context Sample.start (VStr "src") (VInt 5) "dst");
    reflexivity.
Defined.

(** X10: the storage calls of an invocation are none, or one read, or one
    read followed by one write; the read is for the bucket and key the
    event names, the write for the bucket of [DEST_BUCKET] and the derived
    key. *)
Theorem storage_calls_shape pil s3 env event ctx w r w' :
  lambda_handler pil s3 env event ctx w = (r, w') ->
  let calls := storage_calls (effects_since w w') in
  calls = [] \/
  exists b k,
    subscript event bucket_path = Ok b /\
    subscript event key_path = Ok (VStr k) /\
    (calls = [GetObject b k] \/
     exists tb body,
       env !! "DEST_BUCKET" = Some tb /\
       calls = [GetObject b k; PutObject tb (thumbnail_key k) body]).
Proof.
  run_handler. intros H. cbv zeta. split_run H; settle_effects.
  all: cbn [storage_calls List.filter is_storage_call].
  all: try (left; reflexivity).
  all: right; eexists _, _; split; [reflexivity|]; split; [reflexivity|].
  all: try (left; reflexivity).
  all: right; eexists _, _; split; reflexivity.
Qed.

Lemma storage_calls_shape_sample :
  let run := lambda_handler Sample.pil Sample.healthy Sample.environ
                            Sample.event Sample.context Sample.start in
  let calls := storage_calls (effects_since Sample.start (snd run)) in
  run = (fst run, snd run) /\
  (calls = [] \/
   exists b k,
     subscript Sample.event bucket_path = Ok b /\
     subscript Sample.event key_path = Ok (VStr k) /\
     (calls = [GetObject b k] \/
      exists tb body,
        Sample.environ !! "DEST_BUCKET" = Some tb /\
        calls = [GetObject b k; PutObject tb (thumbnail_key k) body])) /\
  calls = [GetObject (VStr "src") "img.jpg";
           PutObject "dst" "img_thumbnail.jpg" Sample.thumb_500x375].
Proof.
  intros run calls. split; [reflexivity|]. split.
  - exact (storage_calls_shape Sample.pil Sample.healthy Sample.environ
             Sample.event Sample.context Sample.start (fst run) (snd run)
             eq_refl).
  - vm_compute. reflexivity.
Defined.

(** X11: an invocation changes the bucket contents at one place at most,
    the destination of a successful upload; it removes nothing, and the
    source object is still there afterwards, with the same bytes, even
    when the destination bucket is the source bucket. *)
Theorem only_destination_changes pil s3 env event ctx w r w' :
  lambda_handler pil s3 env event ctx w = (r, w') ->
  (forall loc, is_Some (objects w !! loc) -> is_Some (objects w' !! loc)) /\
  (forall bkt k',
      objects w' !! (bkt, k') <> objects w !! (bkt, k') ->
      exists key,
        r = Ok event /\ env !! "DEST_BUCKET" = Some bkt /\
        subscript event key_path = Ok (VStr key) /\ k' = thumbnail_key key) /\
  (forall b k,
      subscript event bucket_path = Ok (VStr b) ->
      subscript event key_path = Ok (VStr k) ->
      objects w' !! (b, k) = objects w !! (b, k)).
Proof.
  intros H. apply lambda_handler_cases in H.
  assert (Hcases :
    objects w' = objects w \/
    exists tb key body,
      r = Ok event /\ env !! "DEST_BUCKET" = Some tb /\
      subscript event key_path = Ok (VStr key) /\
      objects w' = <[(tb, thumbnail_key key) := body]> (objects w)).
  { destruct H as [(e & _ & Ho & _) | (bk & key & tb & bs & img & img' & buf & H)];
      [left; exact Ho|].
    destruct H as (_ & Hk & Htb & _ & _ & _ & _ & _ & _ & Hreply).
    destruct (put_reply_of _ _ _ _) as [e|status]; [left; tauto|].
    destruct (status =? 200); destruct Hreply as [Hr Ho]; [|left; exact Ho].
    right. exists tb, key, buf. auto. }
  clear H. destruct Hcases as [Ho | (tb & key & body & Hr & Htb & Hk & Ho)];
    rewrite Ho.
  - split; [auto|]. split; [intros ? ? Hne; now destruct Hne | reflexivity].
  - split; [|split].
    + intros loc Hloc. destruct (decide ((tb, thumbnail_key key) = loc)) as [<-|Hne].
      * rewrite lookup_insert_eq. eauto.
      * now rewrite lookup_insert_ne.
    + intros bkt k' Hne.
      destruct (decide ((tb, thumbnail_key key) = (bkt, k'))) as [[= <- <-]|Hd].
      * exists key. auto.
      * rewrite lookup_insert_ne in Hne by exact Hd. now destruct Hne.
    + intros b k _ Hk'. rewrite Hk in Hk'. injection Hk' as <-.
      apply lookup_insert_ne. intros [= _ Hkey].
      exact (thumbnail_key_fresh key Hkey).
Qed.

Lemma only_destination_changes_sample :
  let env : gmap string string := {[ "DEST_BUCKET" := "src" ]} in
  let run := lambda_handler Sample.pil Sample.healthy env Sample.event
                            Sample.context Sample.start in
  run = (Ok Sample.event, snd run) /\
  objects (snd run) !! ("src", "img.jpg") = Some Sample.jpeg_800x600 /\
  objects (snd run) !! ("src", "img_thumbnail.jpg") = Some Sample.thumb_500x375.
Proof.
  intros env run.
  assert (Hrun : run = (Ok Sample.event, snd run)) by (vm_compute; reflexivity).
  split; [exact Hrun|].
  destruct (only_destination_changes Sample.pil Sample.healthy env Sample.event
              Sample.context Sample.start _ _ Hrun) as (_ & _ & Hsrc).
  split; [|vm_compute; reflexivity].
  rewrite (Hsrc "src" "img.jpg" eq_refl eq_refl). vm_compute. reflexivity.
Defined.

(** X12: the invocation context and the environment variables other than
    [DEST_BUCKET] do not influence the handler: with the same event and the
    same [DEST_BUCKET], two invocations differ in the log line that echoes
    the context and in nothing else. *)
Theorem context_only_logged pil s3 env1 env2 event ctx1 ctx2 w r1 w1 r2 w2 :
  env1 !! "DEST_BUCKET" = env2 !! "DEST_BUCKET" ->
  lambda_handler pil s3 env1 event ctx1 w = (r1, w1) ->
  lambda_handler pil s3 env2 event ctx2 w = (r2, w2) ->
  r1 = r2 /\ objects w1 = objects w2 /\
  exists rest,
    effects_since w w1
    = LogInfo (Format "event: {}" [event])
        :: LogInfo (Format "context: {}" [ctx1]) :: rest /\
    effects_since w w2
    = LogInfo (Format "event: {}" [event])
        :: LogInfo (Format "context: {}" [ctx2]) :: rest.
Proof.
  intros Henv. run_handler. rewrite <- Henv.
  intros H1 H2. split_runs H1 H2; settle_effects.
  all: try (cbn [negb] in *; discriminate).
  all: split; [reflexivity|]; split; [reflexivity|].
  all: eexists; split; reflexivity.
Qed.

Lemma context_only_logged_sample :
  let env2 : gmap string string :=
    {[ "DEST_BUCKET" := "dst"; "AWS_REGION" := "eu-west-1" ]} in
  let run1 := lambda_handler Sample.pil Sample.healthy Sample.environ
                             Sample.event Sample.context Sample.start in
  let run2 := lambda_handler Sample.pil Sample.healthy env2
                             Sample.event (VStr "other") Sample.start in
  Sample.environ !! "DEST_BUCKET" = env2 !! "DEST_BUCKET" /\
  fst run1 = fst run2 /\ objects (snd run1) = objects (snd run2).
Proof.
  intros env2 run1 run2.
  assert (Henv : Sample.environ !! "DEST_BUCKET" = env2 !! "DEST_BUCKET")
    by (vm_compute; reflexivity).
  split; [exact Henv|].
  destruct (context_only_logged Sample.pil Sample.healthy Sample.environ env2
              Sample.event Sample.context (VStr "other") Sample.start
              (fst run1) (snd run1) (fst run2) (snd run2) Henv eq_refl eq_refl)
    as (Hr & Ho & _).
  split; [exact Hr | exact Ho].
Defined.

(** X13: an exception raised by the [put_object] call itself reaches the
    caller as it is; the error of line 45 is raised only for an answer
    that came back with a status other than 200. Either way the bucket
    contents are unchanged. *)
Theorem put_exception_propagates pil s3 env event ctx w r w' b k body e :
  lambda_handler pil s3 env event ctx w = (r, w') ->
  In (PutObject b k body) (effects_since w w') ->
  put_reply_of s3 b k body = PutRaises e ->
  r = Raise e /\ objects w' = objects w.
Proof.
  intros H Hin Hreply.
  destruct (put_call_inv _ _ _ _ _ _ _ _ _ _ _ H Hin)
    as (bucket & key & bs & img & img' & _ & _ & _ & _ & _ & _ & _ & _ & _ & _ & Hr).
  now rewrite Hreply in Hr.
Qed.

Lemma put_exception_propagates_sample :
  let s3 := {| get_fault := fun _ _ => None;
               put_reply_of := fun _ _ _ => PutRaises (ClientError "AccessDenied") |} in
  let run := lambda_handler Sample.pil s3 Sample.environ Sample.event
                            Sample.context Sample.start in
  In (PutObject "dst" "img_thumbnail.jpg" Sample.thumb_500x375)
     (effects_since Sample.start (snd run)) /\
  fst run = Raise (ClientError "AccessDenied") /\
  objects (snd run) = objects Sample.start.
Proof.
  intros s3 run.
  assert (Hin : In (PutObject "dst" "img_thumbnail.jpg" Sample.thumb_500x375)
                   (effects_since Sample.start (snd run))).
  { vm_compute. do 6 right. left. reflexivity. }
  split; [exact Hin|].
  exact (put_exception_propagates Sample.pil s3 Sample.environ Sample.event
           Sample.context Sample.start (fst run) (snd run)
           "dst" "img_thumbnail.jpg" Sample.thumb_500x375
           (ClientError "AccessDenied") eq_refl Hin eq_refl).
Defined.

Lemma subscript_app (p q : list pykey) (v : value) :
  subscript v (p ++ q)%list = x ← subscript v p; subscript x q.
Proof.
  revert v. induction p as [|k p IH]; intros v; [reflexivity|].
  simpl. destruct (getitem v k); [apply IH | reflexivity].
Qed.

(** X14: the two lookups of lines 17-18 go through the same first record
    and the same ["s3"] entry, so when the bucket name was read, the key
    lookup can only fail on ["object"] or on ["key"]: with a [KeyError] for
    one of the two, or a [TypeError] when the ["object"] entry is not a
    JSON object. *)
Theorem key_lookup_failure_kind (event bucket : value) (e : exn) :
  subscript event bucket_path = Ok bucket ->
  subscript event key_path = Raise e ->
  e = KeyError (KStr "object") \/ e = KeyError (KStr "key") \/ e = TypeError.
Proof.
  change bucket_path
    with ([KStr "Records"; KInt 0; KStr "s3"] ++ [KStr "bucket"; KStr "name"])%list.
  change key_path
    with ([KStr "Records"; KInt 0; KStr "s3"] ++ [KStr "object"; KStr "key"])%list.
  rewrite !subscript_app.
  destruct (subscript event [KStr "Records"; KInt 0; KStr "s3"]) as [s3v|e'];
    cbv beta iota delta [mbind result_bind]; [|discriminate].
  destruct s3v; try discriminate. simpl.
  intros _. destruct (dict_get fields "object") as [o|]; [|intros [= <-]; auto].
  destruct o; simpl; try (intros [= <-]; auto).
  destruct (dict_get fields0 "key"); [discriminate | intros [= <-]; auto].
Qed.

Lemma key_lookup_failure_kind_sample :
  let event :=
    Sample.event_of
      [VDict [("s3", VDict [("bucket", VDict [("name", VStr "src")])])]] in
  subscript event bucket_path = Ok (VStr "src") /\
  subscript event key_path = Raise (KeyError (KStr "object")) /\
  (KeyError (KStr "object") = KeyError (KStr "object") \/
   KeyError (KStr "object") = KeyError (KStr "key") \/
   KeyError (KStr "object") = TypeError).
Proof.
  intros event. split; [reflexivity|]. split; [reflexivity|].
  exact (key_lookup_failure_kind event (VStr "src") _ eq_refl eq_refl).
Defined.
